(** * FileMetadataStore: the sync coordinator and query service

    A shallow embedding of [src/store/fileMetadataStore.ts].

    The class is a MobX store.  Its observable fields become a record, the
    private handle cache [db] becomes an optional handle, and every [async]
    method becomes a process that runs synchronously up to its next [await]
    and then suspends with a continuation.  The external metadata database
    (module [lib/db]) is the environment: it answers the calls the store
    issues and fires the progress callback registered by [startSync].

    Not modelled: console output, the [rootStore] back reference and the
    [ipfsClient] constant (none of them is ever read back by the store). *)

From Stdlib Require Import ZArith List String Bool Lia.
Import ListNotations.
Open Scope string_scope.
Open Scope list_scope.
Open Scope Z_scope.
Set Warnings "-register-all".

(** ** Values *)

(** The JavaScript numbers the store holds in its progress counters: an
    integer, or the [Infinity] the source writes into [totalInodesToSync]. *)
Inductive number : Type :=
| Num (z : Z)
| Infinity.

(** [a === b] on those numbers. *)
Definition strict_eq (a b : number) : bool :=
  match a, b with
  | Num x, Num y => x =? y
  | Infinity, Infinity => true
  | _, _ => false
  end.

(** A JavaScript [Error], identified by its message. *)
Record Error : Type := mkError { message : string }.

(** Modelled from the spec: the record type [IpfsFileMetadata] is declared in
    [lib/db]; the store never looks inside a record ("opaque to this core"),
    so a record is represented by a key. *)
Inductive IpfsFileMetadata : Type :=
| MetadataRecord (key : nat).

(** Modelled from the spec: the type [SyncState] of [lib/db], section 6:
    [getSyncState() -> {numSynced: integer, total: integer}]. *)
Module SyncState.
Record t : Type := mk { numSynced : Z; total : Z }.
End SyncState.

(** Modelled from the spec: the answer of [search] and [latest] in [lib/db],
    section 6: [{data: sequence of Record, total: integer}]. *)
Module SearchResults.
Record t : Type := mk { data : list IpfsFileMetadata; total : Z }.
End SearchResults.

(** An instance of the class [FileMetadataDatabase]; two instances are the
    same object exactly when they come from the same [new]. *)
Inductive FileMetadataDatabase : Type :=
| Handle (serial : nat).

(** The parameter and action records of the source.  The spec takes page
    numbers, page sizes and the database's counts as integers; as
    JavaScript numbers they are integers that binary64 holds. *)
Module SearchParams.
Record t : Type := mk { query : string; page : Z }.
End SearchParams.

Module GetLatestParams.
Record t : Type := mk { page : Z }.
End GetLatestParams.

Module UpdateSyncAction.
Record t : Type := mk { inodesSynced : Z; totalInodes : Z }.
End UpdateSyncAction.

Module UpdateSearchResultsAction.
Record t : Type := mk { data : list IpfsFileMetadata; total : Z }.
End UpdateSearchResultsAction.

(** ** The store *)

Record FileMetadataStore : Type := mkStore {
  searchResults : list IpfsFileMetadata;
  loadingSearchResults : bool;
  total : Z;
  resultsPerPage : Z;
  inodesSynced : number;
  totalInodesToSync : number;
  syncError : option Error;
  db : option FileMetadataDatabase
}.

(** ** Arithmetic on page numbers *)

(** What [-] and [*] give on JavaScript numbers that are integers: a number
    is a binary64 value, so a result is an integer with at most 53
    significant bits, an infinity after overflow, or [NaN].  The two zeros,
    which [===] does not tell apart, are both [Finite 0]. *)
Inductive double : Type :=
| Finite (z : Z)
| PlusInfinity
| MinusInfinity
| NotANumber.

(** The binary64 value nearest to the integer [z], ties to the even
    significand; past the largest finite value, an infinity. *)
Definition round64 (z : Z) : double :=
  let m := Z.abs z in
  if m <? 2 ^ 53 then Finite z
  else
    let e := Z.log2 m - 52 in
    let q := m / 2 ^ e in
    let r := m mod 2 ^ e in
    let half := 2 ^ (e - 1) in
    let q' := if r <? half then q
              else if half <? r then q + 1
              else if Z.even q then q else q + 1 in
    if 2 ^ 1024 <=? q' * 2 ^ e
    then (if z <? 0 then MinusInfinity else PlusInfinity)
    else Finite (Z.sgn z * (q' * 2 ^ e)).

(** [a - b]. *)
Definition js_sub (a b : double) : double :=
  match a, b with
  | NotANumber, _ | _, NotANumber => NotANumber
  | Finite x, Finite y => round64 (x - y)
  | PlusInfinity, PlusInfinity => NotANumber
  | MinusInfinity, MinusInfinity => NotANumber
  | PlusInfinity, _ => PlusInfinity
  | MinusInfinity, _ => MinusInfinity
  | Finite _, PlusInfinity => MinusInfinity
  | Finite _, MinusInfinity => PlusInfinity
  end.

(** The infinity of the sign of [a] times [z]; [NaN] when [z] is 0. *)
Definition scale_infinity (negative : bool) (z : Z) : double :=
  if z =? 0 then NotANumber
  else if xorb negative (z <? 0) then MinusInfinity else PlusInfinity.

(** [a * b]. *)
Definition js_mul (a b : double) : double :=
  match a, b with
  | NotANumber, _ | _, NotANumber => NotANumber
  | Finite x, Finite y => round64 (x * y)
  | Finite x, PlusInfinity | PlusInfinity, Finite x =>
      scale_infinity false x
  | Finite x, MinusInfinity | MinusInfinity, Finite x =>
      scale_infinity true x
  | PlusInfinity, PlusInfinity | MinusInfinity, MinusInfinity =>
      PlusInfinity
  | PlusInfinity, MinusInfinity | MinusInfinity, PlusInfinity =>
      MinusInfinity
  end.

(** The expression [this.resultsPerPage * (params.page - 1)] of [search]
    and [getLatest]. *)
Definition page_offset (resultsPerPage page : Z) : double :=
  js_mul (Finite resultsPerPage) (js_sub (Finite page) (Finite 1)).

(** Below zero. *)
Definition negative (d : double) : Prop :=
  match d with
  | Finite z => z < 0
  | MinusInfinity => True
  | _ => False
  end.

(** An integer that binary64 holds together with all the integers between
    it and 0. *)
Definition safe (z : Z) : Prop := Z.abs z <= 2 ^ 53.

(** The calls the store makes on the external database, each with its
    receiver. *)
Inductive DbCall : Type :=
| GetSyncState (h : FileMetadataDatabase)
| StartSync (h : FileMetadataDatabase)
| Search (h : FileMetadataDatabase) (q : string) (limit : Z)
    (offset : double)
| Latest (h : FileMetadataDatabase) (limit : Z) (offset : double)
| ClearData (h : FileMetadataDatabase).

Definition answer (c : DbCall) : Type :=
  match c with
  | GetSyncState _ => SyncState.t
  | StartSync _ => unit
  | Search _ _ _ _ => SearchResults.t
  | Latest _ _ _ => SearchResults.t
  | ClearData _ => unit
  end.

Definition receiver (c : DbCall) : FileMetadataDatabase :=
  match c with
  | GetSyncState h | StartSync h | Search h _ _ _ | Latest h _ _
  | ClearData h => h
  end.

(** How a promise settles. *)
Inductive Settled (A : Type) : Type :=
| Resolved (a : A)
| Rejected (e : Error).
Arguments Resolved {A} a.
Arguments Rejected {A} e.

(** The store together with what it has done to the outside: how many
    database handles it has constructed and which calls it has issued
    (newest first). *)
Record World : Type := mkWorld {
  self : FileMetadataStore;
  constructed : nat;
  issued : list DbCall
}.

(** An [async] function in flight: settled, suspended on a promise that is
    already settled (it resumes in a later microtask), or suspended on a call
    to the external database.  A continuation runs on the world it finds
    when it is resumed. *)
Inductive Proc : Type :=
| Finished (o : Settled unit)
| Yield (k : World -> World * Proc)
| Awaiting (c : DbCall) (k : Settled (answer c) -> World -> World * Proc).

Definition Async : Type := World -> World * Proc.

Definition ret (o : Settled unit) : Async := fun w => (w, Finished o).

(** [const x = await m(); k x] where [m] runs synchronously. *)
Definition await_now {A : Type} (m : World -> World * A) (k : A -> Async)
  : Async :=
  fun w => let (w', a) := m w in (w', Yield (k a)).

(** [const x = await db.c(...); k x]; a rejection leaves the function. *)
Definition await_call (c : DbCall) (k : answer c -> Async) : Async :=
  fun w =>
    (mkWorld (self w) (constructed w) (c :: issued w),
     Awaiting c (fun r => match r with
                          | Resolved a => k a
                          | Rejected e => ret (Rejected e)
                          end)).

(** A synchronous statement followed by the rest of the body. *)
Definition act (f : FileMetadataStore -> FileMetadataStore) (k : Async)
  : Async :=
  fun w => k (mkWorld (f (self w)) (constructed w) (issued w)).

(** [promise.catch(handler)]: the handler runs in a later microtask. *)
Fixpoint catch (p : Proc)
  (handler : Error -> FileMetadataStore -> FileMetadataStore) : Proc :=
  match p with
  | Finished (Resolved _) => Finished (Resolved tt)
  | Finished (Rejected e) =>
      Yield (fun w => (mkWorld (handler e (self w)) (constructed w) (issued w),
                       Finished (Resolved tt)))
  | Yield k =>
      Yield (fun w => let (w', p') := k w in (w', catch p' handler))
  | Awaiting c k =>
      Awaiting c (fun r w => let (w', p') := k r w in (w', catch p' handler))
  end.

(** A database, as the answer it gives to each call. *)
Definition Database : Type := forall c : DbCall, Settled (answer c).

(** Runs a process alone, the database answering by [oracle]. *)
Fixpoint drive (oracle : Database) (p : Proc) (w : World)
  : World * Settled unit :=
  match p with
  | Finished o => (w, o)
  | Yield k => let (w', p') := k w in drive oracle p' w'
  | Awaiting c k => let (w', p') := k (oracle c) w in drive oracle p' w'
  end.

(** ** The methods of the class *)

Definition with_db (d : option FileMetadataDatabase) (s : FileMetadataStore)
  : FileMetadataStore :=
  mkStore (searchResults s) (loadingSearchResults s) (total s)
    (resultsPerPage s) (inodesSynced s) (totalInodesToSync s) (syncError s) d.

Definition with_loadingSearchResults (b : bool) (s : FileMetadataStore)
  : FileMetadataStore :=
  mkStore (searchResults s) b (total s) (resultsPerPage s) (inodesSynced s)
    (totalInodesToSync s) (syncError s) (db s).

Definition with_syncError (e : option Error) (s : FileMetadataStore)
  : FileMetadataStore :=
  mkStore (searchResults s) (loadingSearchResults s) (total s)
    (resultsPerPage s) (inodesSynced s) (totalInodesToSync s) e (db s).

(** [getDb]: its body has no [await], so the test and the assignment run in
    one piece; [new FileMetadataDatabase] yields a fresh, truthy object. *)
Definition getDb (w : World) : World * FileMetadataDatabase :=
  match db (self w) with
  | Some h => (w, h)
  | None =>
      let h := Handle (constructed w) in
      (mkWorld (with_db (Some h) (self w)) (S (constructed w)) (issued w), h)
  end.

(** The computed property [isDbSynced]. *)
Definition isDbSynced (s : FileMetadataStore) : bool :=
  strict_eq (inodesSynced s) (totalInodesToSync s).

Definition updateSyncProgress (params : UpdateSyncAction.t)
  (s : FileMetadataStore) : FileMetadataStore :=
  mkStore (searchResults s) (loadingSearchResults s) (total s)
    (resultsPerPage s)
    (Num (UpdateSyncAction.inodesSynced params))
    (Num (UpdateSyncAction.totalInodes params))
    (syncError s) (db s).

Definition updateSearchResults (params : UpdateSearchResultsAction.t)
  (s : FileMetadataStore) : FileMetadataStore :=
  mkStore (UpdateSearchResultsAction.data params) false
    (UpdateSearchResultsAction.total params)
    (resultsPerPage s) (inodesSynced s) (totalInodesToSync s) (syncError s)
    (db s).

Definition clearResults (s : FileMetadataStore) : FileMetadataStore :=
  mkStore [] (loadingSearchResults s) (total s) (resultsPerPage s)
    (Num 0) Infinity (syncError s) (db s).

(** How a synchronous callback ends. *)
Inductive Completion : Type :=
| Returned
| Threw (e : Error).

(** The callback [init] hands to [db.startSync]. *)
Definition onProgress (err : option Error) (syncState : option SyncState.t)
  (s : FileMetadataStore) : FileMetadataStore * Completion :=
  match syncState with
  | None => (s, Threw (mkError "Result must exist"))
  | Some syncState =>
      (updateSyncProgress
         (UpdateSyncAction.mk (SyncState.numSynced syncState)
                              (SyncState.total syncState)) s,
       Returned)
  end.

Definition initiator : Async :=
  await_now getDb (fun db =>
  await_call (GetSyncState db) (fun syncState =>
  act (updateSyncProgress
         (UpdateSyncAction.mk (SyncState.numSynced syncState)
                              (SyncState.total syncState)))
  (await_call (StartSync db) (fun _ =>
  ret (Resolved tt))))).

Definition init : Async :=
  fun w =>
    let (w', p) := initiator w in
    (w', catch p (fun err =>
                    with_syncError (Some (mkError "Incorrect network!")))).

Definition search (params : SearchParams.t) : Async :=
  await_now getDb (fun db w =>
    let limit := resultsPerPage (self w) in
    let offset :=
      page_offset (resultsPerPage (self w)) (SearchParams.page params) in
    act (with_loadingSearchResults true)
    (await_call (Search db (SearchParams.query params) limit offset)
       (fun searchResults =>
    act (updateSearchResults
           (UpdateSearchResultsAction.mk (SearchResults.data searchResults)
                                         (SearchResults.total searchResults)))
    (ret (Resolved tt)))) w).

Definition getLatest (params : GetLatestParams.t) : Async :=
  await_now getDb (fun db w =>
    let limit := resultsPerPage (self w) in
    let offset :=
      page_offset (resultsPerPage (self w)) (GetLatestParams.page params) in
    act (with_loadingSearchResults true)
    (await_call (Latest db limit offset) (fun searchResults =>
    act (updateSearchResults
           (UpdateSearchResultsAction.mk (SearchResults.data searchResults)
                                         (SearchResults.total searchResults)))
    (ret (Resolved tt)))) w).

Definition clear : Async :=
  await_now getDb (fun db =>
  await_call (ClearData db) (fun _ =>
  act clearResults
  (ret (Resolved tt)))).

(** ** The store in its environment *)

(** The store and the [async] functions in flight. *)
Record System : Type := mkSystem {
  world : World;
  tasks : list Proc
}.

Definition spawn (a : Async) (sys : System) : System :=
  let (w, p) := a (world sys) in mkSystem w (p :: tasks sys).

(** The task between [before] and [after] has run up to its next
    suspension. *)
Definition continue (before after : list Proc) (x : World * Proc) : System :=
  mkSystem (fst x) (before ++ snd x :: after).

(** [syncWatcher]: the first run of the [autorun] reaction. *)
Definition syncWatcher (sys : System) : System :=
  if negb (isDbSynced (self (world sys))) then spawn init sys else sys.

Definition constructor (resultsPerPage : Z) (autoSync : bool) : System :=
  let this :=
    mkSystem
      (mkWorld (mkStore [] false 0 resultsPerPage (Num 0) Infinity None None)
               0 [])
      [] in
  if autoSync then syncWatcher this else this.

(** The public methods a client may call.  When the [autorun] reaction of
    [syncWatcher] runs again it calls [init] from inside an action of a
    running task; by then [db] is set, so what [init] does before its first
    suspension changes nothing, and the call is the same as one made when the
    running task suspends. *)
Inductive MethodCall : Type :=
| CallInit
| CallSearch (params : SearchParams.t)
| CallGetLatest (params : GetLatestParams.t)
| CallClear.

Definition invoke (m : MethodCall) : Async :=
  match m with
  | CallInit => init
  | CallSearch params => search params
  | CallGetLatest params => getLatest params
  | CallClear => clear
  end.

(** One move of the event loop: a method is called, a task suspended on a
    settled promise resumes, the database settles a call, or the database
    fires the progress callback of a subscription it was given. *)
Inductive step : System -> System -> Prop :=
| step_invoke (m : MethodCall) (sys : System) :
    step sys (spawn (invoke m) sys)
| step_resume (sys : System) (before after : list Proc) k :
    tasks sys = before ++ Yield k :: after ->
    step sys (continue before after (k (world sys)))
| step_settle (sys : System) (before after : list Proc) c k
    (r : Settled (answer c)) :
    tasks sys = before ++ Awaiting c k :: after ->
    step sys (continue before after (k r (world sys)))
| step_progress (sys : System) h err syncState :
    In (StartSync h) (issued (world sys)) ->
    step sys
      (mkSystem
         (mkWorld (fst (onProgress err syncState (self (world sys))))
                  (constructed (world sys)) (issued (world sys)))
         (tasks sys)).

Inductive steps : System -> System -> Prop :=
| steps_refl (sys : System) : steps sys sys
| steps_snoc (a b c : System) : steps a b -> step b c -> steps a c.

(** A method run alone to its end, the database answering by [oracle]. *)
Definition run (a : Async) (oracle : Database)
  (w : World) : World * Settled unit :=
  let (w', p) := a w in drive oracle p w'.

(** A database that answers every call of one kind the same way. *)
Definition reply (syncState : Settled SyncState.t)
  (results : Settled SearchResults.t) (done : Settled unit)
  : Database :=
  fun c =>
    match c with
    | GetSyncState _ => syncState
    | StartSync _ => done
    | Search _ _ _ _ => results
    | Latest _ _ _ => results
    | ClearData _ => done
    end.

(** Runs a task past its microtask suspensions, to its next database call or
    its end. *)
Fixpoint to_call (p : Proc) (w : World) : World * Proc :=
  match p with
  | Yield k => let (w', p') := k w in to_call p' w'
  | _ => (w, p)
  end.

(** A method called and run to its first database call (or its end). *)
Definition start (a : Async) (w : World) : World * Proc :=
  let (w', p) := a w in to_call p w'.

Definition awaited (p : Proc) : option DbCall :=
  match p with
  | Awaiting c _ => Some c
  | _ => None
  end.

(** The first task resumes, or is answered by [oracle]. *)
Definition advance (oracle : Database) (sys : System)
  : System :=
  match tasks sys with
  | Yield k :: after => continue [] after (k (world sys))
  | Awaiting c k :: after => continue [] after (k (oracle c) (world sys))
  | _ => sys
  end.

(** ** Invariants of tasks *)

(** Every segment of the task keeps [I]. *)
Fixpoint preserves (I : World -> Prop) (p : Proc) : Prop :=
  match p with
  | Finished _ => True
  | Yield k => forall w, I w -> I (fst (k w)) /\ preserves I (snd (k w))
  | Awaiting c k =>
      forall r w, I w -> I (fst (k r w)) /\ preserves I (snd (k r w))
  end.

Definition keeps (I : World -> Prop) (a : Async) : Prop :=
  forall w, I w -> I (fst (a w)) /\ preserves I (snd (a w)).

(** The world satisfies [I] and every task in flight keeps it. *)
Definition sound (I : World -> Prop) (sys : System) : Prop :=
  I (world sys) /\ Forall (preserves I) (tasks sys).

Fixpoint Proc_induction (P : Proc -> Prop)
  (HF : forall o, P (Finished o))
  (HY : forall k, (forall w, P (snd (k w))) -> P (Yield k))
  (HA : forall c k, (forall r w, P (snd (k r w))) -> P (Awaiting c k))
  (p : Proc) : P p :=
  match p with
  | Finished o => HF o
  | Yield k => HY k (fun w => Proc_induction P HF HY HA (snd (k w)))
  | Awaiting c k =>
      HA c k (fun r w => Proc_induction P HF HY HA (snd (k r w)))
  end.

(** The progress counter holds an integer. *)
Definition counted (w : World) : Prop :=
  exists z, inodesSynced (self w) = Num z.

(** At most one handle exists, it is the cached one, and every call went to
    it. *)
Definition single_handle (w : World) : Prop :=
  ((db (self w) = None /\ constructed w = 0%nat) \/
   (db (self w) = Some (Handle 0) /\ constructed w = 1%nat)) /\
  Forall (fun c => receiver c = Handle 0) (issued w).

(** ** Sample data *)

(** A store with twenty results per page, no automatic sync, not yet used. *)
Definition fresh : World := world (constructor 20 false).

Definition page_of_two : SearchResults.t :=
  SearchResults.mk [MetadataRecord 1; MetadataRecord 2] 57.

Definition offline : Error := mkError "offline".

(** A database whose sync is complete at a hundred records. *)
Definition all_synced : Database :=
  reply (Resolved (SyncState.mk 100 100)) (Resolved page_of_two)
        (Resolved tt).

(** A database that rejects every call. *)
Definition unreachable : Database :=
  reply (Rejected offline) (Rejected offline) (Rejected offline).

(** An automatically syncing store once [init] has read the sync state. *)
Definition after_first_read : System :=
  advance all_synced (advance all_synced (constructor 20 true)).

(** Two [init] calls in flight at once, one of them past [getSyncState]. *)
Definition two_inits : System :=
  advance all_synced
    (advance all_synced
       (spawn (invoke CallInit) (spawn (invoke CallInit)
                                   (constructor 20 false)))).

(** The same, after a search and a clear have been called as well. *)
Definition two_inits_and_queries : System :=
  advance all_synced
    (spawn (invoke CallClear)
       (advance all_synced
          (spawn (invoke (CallSearch (SearchParams.mk "report" 3)))
             two_inits))).

(** An automatically syncing store whose first [init] failed at the read of
    the sync state. *)
Definition failed_init : System :=
  advance unreachable
    (advance unreachable (advance unreachable (constructor 20 true))).

(** The same store after a second [init] that succeeded and a [clear]. *)
Definition after_retry : System :=
  advance all_synced
    (advance all_synced
       (spawn (invoke CallClear)
          (advance all_synced
             (advance all_synced
                (advance all_synced
                   (spawn (invoke CallInit) failed_init)))))).

(** ** What a task may do to the world *)

(** Every segment of the task, on whatever world it is resumed, takes that
    world to one related to it by [R]. *)
Fixpoint steady (R : World -> World -> Prop) (p : Proc) : Prop :=
  match p with
  | Finished _ => True
  | Yield k => forall w, R w (fst (k w)) /\ steady R (snd (k w))
  | Awaiting c k =>
      forall r w, R w (fst (k r w)) /\ steady R (snd (k r w))
  end.

Definition guards (R : World -> World -> Prop) (a : Async) : Prop :=
  forall w, R w (fst (a w)) /\ steady R (snd (a w)).

(** The page size is kept, and [syncError] is kept or becomes the fixed
    error of [init]. *)
Definition settings_kept (w w' : World) : Prop :=
  resultsPerPage (self w') = resultsPerPage (self w) /\
  (syncError (self w') = syncError (self w) \/
   syncError (self w') = Some (mkError "Incorrect network!")).

(** The fields of the sync state are as they were. *)
Definition sync_untouched (w w' : World) : Prop :=
  inodesSynced (self w') = inodesSynced (self w) /\
  totalInodesToSync (self w') = totalInodesToSync (self w) /\
  syncError (self w') = syncError (self w).

(** The fields of the search state are as they were. *)
Definition results_untouched (w w' : World) : Prop :=
  searchResults (self w') = searchResults (self w) /\
  total (self w') = total (self w) /\
  loadingSearchResults (self w') = loadingSearchResults (self w).

(** The task at position [i] resumes, or is answered by [oracle]. *)
Definition advance_nth (i : nat) (oracle : Database) (sys : System)
  : System :=
  match nth_error (tasks sys) i with
  | Some (Yield k) =>
      continue (firstn i (tasks sys)) (skipn (S i) (tasks sys))
        (k (world sys))
  | Some (Awaiting c k) =>
      continue (firstn i (tasks sys)) (skipn (S i) (tasks sys))
        (k (oracle c) (world sys))
  | _ => sys
  end.

(** The database fires the progress callback once for each event, in
    order. *)
Definition deliver (events : list (option Error * option SyncState.t))
  (s : FileMetadataStore) : FileMetadataStore :=
  fold_left (fun s ev => fst (onProgress (fst ev) (snd ev) s)) events s.

(** The sync state of the last event that carries one. *)
Definition last_state (events : list (option Error * option SyncState.t))
  : option SyncState.t :=
  fold_left (fun found ev => match snd ev with
                             | Some st => Some st
                             | None => found
                             end) events None.

(** [init] called [n] times, each run alone to its end. *)
Fixpoint init_times (n : nat) (oracle : Database) (w : World) : World :=
  match n with
  | O => w
  | S n' => init_times n' oracle (fst (run init oracle w))
  end.

Definition is_StartSync (c : DbCall) : bool :=
  match c with
  | StartSync _ => true
  | _ => false
  end.

(** How many times [startSync] has been called. *)
Definition subscriptions (w : World) : nat :=
  List.length (filter is_StartSync (issued w)).

(** Two searches called one after the other on a store with [others] in
    flight, both run up to their database call: the newer one is task 0, the
    older one task 1.  (Resuming from a microtask asks the database
    nothing.) *)
Definition two_searches (w : World) (others : list Proc)
  (older newer : SearchParams.t) : System :=
  advance_nth 0 unreachable
    (advance_nth 1 unreachable
       (spawn (search newer) (spawn (search older) (mkSystem w others)))).

(** The database resolves the call of task [i] with [r]. *)
Definition resolve_nth (i : nat) (r : SearchResults.t) (sys : System)
  : System :=
  advance_nth i (reply (Rejected offline) (Resolved r) (Rejected offline))
    sys.

(** ** Tasks keep invariants *)

Lemma preserves_catch (I : World -> Prop) handler :
  (forall e w, I w ->
     I (mkWorld (handler e (self w)) (constructed w) (issued w))) ->
  forall p, preserves I p -> preserves I (catch p handler).
Proof.
  intros Hh p. induction p as [o | k IH | c k IH] using Proc_induction.
  - intros _. destruct o as [u | e]; simpl; [exact Logic.I |].
    intros w Hw. split; [apply Hh; exact Hw | exact Logic.I].
  - simpl. intros Hk w Hw. destruct (Hk w Hw) as [H1 H2].
    specialize (IH w). destruct (k w) as [w' p']. simpl in *. auto.
  - simpl. intros Hk r w Hw. destruct (Hk r w Hw) as [H1 H2].
    specialize (IH r w). destruct (k r w) as [w' p']. simpl in *. auto.
Qed.

Lemma keeps_ret (I : World -> Prop) o : keeps I (ret o).
Proof. intros w Hw. simpl. auto. Qed.

Lemma keeps_act (I : World -> Prop) f k :
  (forall w, I w -> I (mkWorld (f (self w)) (constructed w) (issued w))) ->
  keeps I k -> keeps I (act f k).
Proof. intros Hf Hk w Hw. unfold act. apply Hk, Hf, Hw. Qed.

Lemma keeps_await_call (I : World -> Prop) c k :
  (forall w, I w -> I (mkWorld (self w) (constructed w) (c :: issued w))) ->
  (forall a, keeps I (k a)) -> keeps I (await_call c k).
Proof.
  intros Hc Hk w Hw. unfold await_call. simpl. split; [apply Hc, Hw |].
  intros [a | e] w' Hw'; [apply Hk, Hw' | apply keeps_ret, Hw'].
Qed.

Lemma keeps_await_now (I : World -> Prop) {A : Type}
  (m : World -> World * A) (k : A -> Async) :
  (forall w, I w -> I (fst (m w)) /\ keeps I (k (snd (m w)))) ->
  keeps I (await_now m k).
Proof.
  intros Hm w Hw. unfold await_now. destruct (Hm w Hw) as [H1 H2].
  destruct (m w) as [w' a]. simpl in *. split; [exact H1 | exact H2].
Qed.

Lemma keeps_init (I : World -> Prop) :
  keeps I initiator ->
  (forall e w, I w ->
     I (mkWorld (with_syncError e (self w)) (constructed w) (issued w))) ->
  keeps I init.
Proof.
  intros Hi He w Hw. unfold init. destruct (Hi w Hw) as [H1 H2].
  destruct (initiator w) as [w' p]. simpl in *. split; [exact H1 |].
  apply preserves_catch; [intros e; apply He | exact H2].
Qed.

Lemma Forall_middle {A : Type} (P : A -> Prop) l1 x l2 :
  Forall P (l1 ++ x :: l2) <-> Forall P l1 /\ P x /\ Forall P l2.
Proof.
  rewrite Forall_app. split.
  - intros [H1 H2]. inversion H2; subst. auto.
  - intros [H1 [H2 H3]]. auto.
Qed.

Section Invariant.

Variable I : World -> Prop.
Hypothesis methods_keep : forall m, keeps I (invoke m).
Hypothesis callback_keeps :
  forall err syncState w, I w ->
    I (mkWorld (fst (onProgress err syncState (self w)))
               (constructed w) (issued w)).

Lemma sound_spawn m sys : sound I sys -> sound I (spawn (invoke m) sys).
Proof.
  intros [Hw Ht]. unfold spawn. destruct (methods_keep m _ Hw) as [H1 H2].
  destruct (invoke m (world sys)) as [w p]. split; simpl in *; auto.
Qed.

Lemma sound_step a b : step a b -> sound I a -> sound I b.
Proof.
  intros Hs. destruct Hs as [m sys | sys l1 l2 k E | sys l1 l2 c k r E
                            | sys h err st Hin].
  - apply sound_spawn.
  - intros [Hw Ht]. rewrite E in Ht. apply Forall_middle in Ht.
    destruct Ht as [Hl1 [Hk Hl2]]. destruct (Hk _ Hw) as [H1 H2].
    split; simpl; [exact H1 | apply Forall_middle; auto].
  - intros [Hw Ht]. rewrite E in Ht. apply Forall_middle in Ht.
    destruct Ht as [Hl1 [Hk Hl2]]. destruct (Hk r _ Hw) as [H1 H2].
    split; simpl; [exact H1 | apply Forall_middle; auto].
  - intros [Hw Ht]. split; simpl; [apply callback_keeps, Hw | exact Ht].
Qed.

Lemma sound_steps a b : steps a b -> sound I a -> sound I b.
Proof.
  induction 1 as [sys | a b c Hab IH Hbc]; [auto |].
  intros Ha. eapply sound_step; [exact Hbc | apply IH, Ha].
Qed.

Lemma sound_constructor resultsPerPage autoSync :
  I (mkWorld (mkStore [] false 0 resultsPerPage (Num 0) Infinity None None)
             0 []) ->
  sound I (constructor resultsPerPage autoSync).
Proof.
  intros H0. unfold constructor.
  assert (Hb : sound I
    (mkSystem
       (mkWorld (mkStore [] false 0 resultsPerPage (Num 0) Infinity None
                   None) 0 []) [])) by (split; [exact H0 | constructor]).
  destruct autoSync; [| exact Hb].
  unfold syncWatcher. simpl negb. cbv iota.
  apply (sound_spawn CallInit), Hb.
Qed.

End Invariant.

Lemma steps_trans a b c : steps a b -> steps b c -> steps a c.
Proof.
  intros Hab Hbc. induction Hbc as [| b c d Hbc IH Hcd]; [exact Hab |].
  eapply steps_snoc; [apply IH, Hab | exact Hcd].
Qed.

Lemma steps_advance oracle sys : steps sys (advance oracle sys).
Proof.
  unfold advance. destruct (tasks sys) as [| [o | k | c k] after] eqn:E.
  - apply steps_refl.
  - apply steps_refl.
  - eapply steps_snoc; [apply steps_refl |].
    apply (step_resume sys [] after k). exact E.
  - eapply steps_snoc; [apply steps_refl |].
    apply (step_settle sys [] after c k (oracle c)). exact E.
Qed.

Lemma steps_spawn m sys : steps sys (spawn (invoke m) sys).
Proof. eapply steps_snoc; [apply steps_refl | apply step_invoke]. Qed.

(** ** The two invariants *)

Lemma counted_frame (w : World) s n l :
  inodesSynced s = inodesSynced (self w) ->
  counted w -> counted (mkWorld s n l).
Proof. intros E [z Hz]. exists z. simpl. congruence. Qed.

Lemma counted_getDb w : counted w -> counted (fst (getDb w)).
Proof.
  intros Hw. unfold getDb. destruct (db (self w)); simpl; [exact Hw |].
  apply (counted_frame w); [reflexivity | exact Hw].
Qed.

Lemma counted_updateSyncProgress params s n l :
  counted (mkWorld (updateSyncProgress params s) n l).
Proof. eexists. reflexivity. Qed.

(** Walks down the body of a method, leaving [side] to show that each
    statement and each issued call keeps the invariant. *)
Ltac walk side :=
  repeat first
    [ apply keeps_ret
    | apply keeps_act; [solve [side] |]
    | apply keeps_await_call; [solve [side] | intro]
    | match goal with
      | H : ?I ?w |- ?I (fst (act _ _ ?w)) /\ _ =>
          apply keeps_act; [solve [side] | | exact H]
      end ].

Ltac counted_side :=
  let w := fresh "w" in
  let Hw := fresh "Hw" in
  intros w Hw;
  first [ apply (counted_frame w); [reflexivity | exact Hw]
        | apply counted_updateSyncProgress
        | exists 0; reflexivity ].

Lemma counted_methods m : keeps counted (invoke m).
Proof.
  destruct m as [| params | params |]; simpl;
    [apply keeps_init; [| intros e; counted_side] | | |];
    (apply keeps_await_now; intros w Hw; split; [apply counted_getDb, Hw |]).
  - walk counted_side.
  - intros w' Hw'. cbv beta zeta. walk counted_side.
  - intros w' Hw'. cbv beta zeta. walk counted_side.
  - walk counted_side.
Qed.

Lemma counted_callback err syncState w :
  counted w ->
  counted (mkWorld (fst (onProgress err syncState (self w)))
                   (constructed w) (issued w)).
Proof.
  intros Hw. destruct syncState as [st |]; simpl.
  - apply counted_updateSyncProgress.
  - apply (counted_frame w); [reflexivity | exact Hw].
Qed.

Lemma counted_reachable resultsPerPage autoSync sys :
  steps (constructor resultsPerPage autoSync) sys -> counted (world sys).
Proof.
  intros Hs.
  apply (sound_steps counted counted_methods counted_callback _ _ Hs).
  apply sound_constructor; [apply counted_methods |].
  exists 0. reflexivity.
Qed.

Lemma single_handle_frame (w : World) s :
  db s = db (self w) ->
  single_handle w -> single_handle (mkWorld s (constructed w) (issued w)).
Proof. intros E [H1 H2]. split; simpl; [rewrite E; exact H1 | exact H2]. Qed.

Lemma single_handle_issue (w : World) c :
  receiver c = Handle 0 ->
  single_handle w ->
  single_handle (mkWorld (self w) (constructed w) (c :: issued w)).
Proof. intros E [H1 H2]. split; simpl; [exact H1 | constructor; auto]. Qed.

Lemma single_handle_getDb w :
  single_handle w ->
  single_handle (fst (getDb w)) /\ snd (getDb w) = Handle 0.
Proof.
  intros [[[Hd Hn] | [Hd Hn]] Hc]; unfold getDb; rewrite Hd; simpl.
  - rewrite Hn. split; [| reflexivity].
    split; simpl; [right; split; reflexivity | exact Hc].
  - split; [| reflexivity]. split; [right; auto | exact Hc].
Qed.

Ltac single_handle_side :=
  let w := fresh "w" in
  intros w;
  first [ apply single_handle_frame; reflexivity
        | apply single_handle_issue; reflexivity ].

Lemma single_handle_methods m : keeps single_handle (invoke m).
Proof.
  destruct m as [| params | params |]; simpl;
    [apply keeps_init; [| intros e; single_handle_side] | | |];
    (apply keeps_await_now; intros w Hw;
     destruct (single_handle_getDb w Hw) as [H1 H2]; rewrite H2;
     split; [exact H1 |]).
  - walk single_handle_side.
  - intros w' Hw'. cbv beta zeta. walk single_handle_side.
  - intros w' Hw'. cbv beta zeta. walk single_handle_side.
  - walk single_handle_side.
Qed.

Lemma single_handle_callback err syncState w :
  single_handle w ->
  single_handle (mkWorld (fst (onProgress err syncState (self w)))
                         (constructed w) (issued w)).
Proof.
  apply single_handle_frame. destruct syncState; reflexivity.
Qed.

Lemma single_handle_reachable resultsPerPage autoSync sys :
  steps (constructor resultsPerPage autoSync) sys ->
  single_handle (world sys).
Proof.
  intros Hs.
  apply (sound_steps single_handle single_handle_methods
           single_handle_callback _ _ Hs).
  apply sound_constructor; [apply single_handle_methods |].
  split; simpl; [left; auto | constructor].
Qed.

(** ** Single runs *)

Lemma getDb_self w :
  self (fst (getDb w)) = with_db (Some (snd (getDb w))) (self w) /\
  issued (fst (getDb w)) = issued w.
Proof.
  unfold getDb. destruct (db (self w)) as [h |] eqn:E; simpl; [| auto].
  split; [| reflexivity]. unfold with_db. rewrite <- E.
  destruct (self w); reflexivity.
Qed.

Lemma run_search (oracle : Database) w params :
  let h := snd (getDb w) in
  let w1 := fst (getDb w) in
  let c := Search h (SearchParams.query params) (resultsPerPage (self w))
             (page_offset (resultsPerPage (self w))
                (SearchParams.page params)) in
  let loading := with_loadingSearchResults true (self w1) in
  run (search params) oracle w =
  match oracle c with
  | Resolved r =>
      (mkWorld (updateSearchResults
                  (UpdateSearchResultsAction.mk (SearchResults.data r)
                                                (SearchResults.total r))
                  loading)
               (constructed w1) (c :: issued w),
       Resolved tt)
  | Rejected e =>
      (mkWorld loading (constructed w1) (c :: issued w), Rejected e)
  end.
Proof.
  unfold run, search, await_now, getDb.
  destruct (db (self w)) as [h |]; simpl; destruct (oracle _); reflexivity.
Qed.

Lemma run_getLatest (oracle : Database) w params :
  let h := snd (getDb w) in
  let w1 := fst (getDb w) in
  let c := Latest h (resultsPerPage (self w))
             (page_offset (resultsPerPage (self w))
                (GetLatestParams.page params)) in
  let loading := with_loadingSearchResults true (self w1) in
  run (getLatest params) oracle w =
  match oracle c with
  | Resolved r =>
      (mkWorld (updateSearchResults
                  (UpdateSearchResultsAction.mk (SearchResults.data r)
                                                (SearchResults.total r))
                  loading)
               (constructed w1) (c :: issued w),
       Resolved tt)
  | Rejected e =>
      (mkWorld loading (constructed w1) (c :: issued w), Rejected e)
  end.
Proof.
  unfold run, getLatest, await_now, getDb.
  destruct (db (self w)) as [h |]; simpl; destruct (oracle _); reflexivity.
Qed.

Lemma run_clear (oracle : Database) w :
  let h := snd (getDb w) in
  let w1 := fst (getDb w) in
  run clear oracle w =
  match oracle (ClearData h) with
  | Resolved _ =>
      (mkWorld (clearResults (self w1)) (constructed w1)
               (ClearData h :: issued w),
       Resolved tt)
  | Rejected e =>
      (mkWorld (self w1) (constructed w1) (ClearData h :: issued w),
       Rejected e)
  end.
Proof.
  unfold run, clear, await_now, getDb.
  destruct (db (self w)) as [h |]; simpl; destruct (oracle _); reflexivity.
Qed.

(** ** The synchronisation predicate *)

(** On the bare record, two [Infinity] counters compare equal; the store
    never writes [Infinity] into [inodesSynced]. *)
Lemma isDbSynced_Infinity_Infinity s :
  inodesSynced s = Infinity -> totalInodesToSync s = Infinity ->
  isDbSynced s = true.
Proof. intros H1 H2. unfold isDbSynced. rewrite H1, H2. reflexivity. Qed.

(** C1: in every state the store reaches from its construction, whatever
    methods are called and however the database answers, [isDbSynced] is
    true exactly when [inodesSynced] equals [totalInodesToSync] and
    [totalInodesToSync] is not [Infinity]; while [totalInodesToSync] is
    [Infinity] the predicate is false. *)
Theorem isDbSynced_iff resultsPerPage autoSync sys :
  steps (constructor resultsPerPage autoSync) sys ->
  let s := self (world sys) in
  (isDbSynced s = true <->
   inodesSynced s = totalInodesToSync s /\ totalInodesToSync s <> Infinity)
  /\ (totalInodesToSync s = Infinity -> isDbSynced s = false).
Proof.
  intros Hs s. destruct (counted_reachable _ _ _ Hs) as [z Hz].
  fold s in Hz. unfold isDbSynced. rewrite Hz.
  destruct (totalInodesToSync s) as [t |]; simpl.
  - split; [| discriminate]. rewrite Z.eqb_eq. split.
    + intros ->. split; [reflexivity | discriminate].
    + intros [E _]. congruence.
  - split; [| reflexivity]. split; [discriminate |].
    intros [_ H]. contradiction.
Qed.

Lemma isDbSynced_iff_witness :
  steps (constructor 20 true) after_first_read /\
  isDbSynced (self (world after_first_read)) = true /\
  ((isDbSynced (self (world after_first_read)) = true <->
    inodesSynced (self (world after_first_read)) =
      totalInodesToSync (self (world after_first_read)) /\
    totalInodesToSync (self (world after_first_read)) <> Infinity)
   /\ (totalInodesToSync (self (world after_first_read)) = Infinity ->
       isDbSynced (self (world after_first_read)) = false)).
Proof.
  assert (H : steps (constructor 20 true) after_first_read).
  { unfold after_first_read.
    eapply steps_trans; apply steps_advance. }
  split; [exact H |]. split; [reflexivity |].
  exact (isDbSynced_iff 20 true after_first_read H).
Defined.

(** ** Arithmetic on page numbers *)

Lemma round64_safe z : safe z -> round64 z = Finite z.
Proof.
  unfold safe, round64. intros H.
  destruct (Z.abs z <? 2 ^ 53) eqn:E; [reflexivity |].
  apply Z.ltb_ge in E.
  assert (Hz : z = 2 ^ 53 \/ z = - 2 ^ 53) by lia.
  destruct Hz as [-> | ->]; vm_compute; reflexivity.
Qed.

Lemma round64_negative z : z < 0 -> negative (round64 z).
Proof.
  intros Hz. unfold round64.
  destruct (Z.abs z <? 2 ^ 53) eqn:E; [exact Hz |].
  apply Z.ltb_ge in E.
  set (m := Z.abs z) in *. set (e := Z.log2 m - 52).
  set (q := m / 2 ^ e).
  set (q' := if m mod 2 ^ e <? 2 ^ (e - 1) then q
             else if 2 ^ (e - 1) <? m mod 2 ^ e then q + 1
                  else if Z.even q then q else q + 1).
  destruct (2 ^ 1024 <=? q' * 2 ^ e).
  - destruct (z <? 0) eqn:N; [exact I | apply Z.ltb_ge in N; lia].
  - simpl. assert (Hm : 0 < m) by lia.
    assert (Hl : 53 <= Z.log2 m) by (apply Z.log2_le_pow2; lia).
    assert (He : 0 <= e) by (unfold e; lia).
    assert (Hp : 0 < 2 ^ e) by (apply Z.pow_pos_nonneg; lia).
    assert (Hle : 2 ^ e <= m).
    { destruct (Z.log2_spec m Hm) as [Hlo _].
      apply Z.le_trans with (2 ^ Z.log2 m); [| exact Hlo].
      apply Z.pow_le_mono_r; unfold e; lia. }
    assert (Hq : 0 < q) by (apply Z.div_str_pos; lia).
    assert (Hq' : 0 < q').
    { unfold q'. destruct (_ <? _); [exact Hq |].
      destruct (_ <? _); [lia |]. destruct (Z.even q); lia. }
    replace (Z.sgn z) with (-1) by lia. nia.
Qed.

Lemma page_offset_safe limit page :
  safe (page - 1) -> safe (limit * (page - 1)) ->
  page_offset limit page = Finite (limit * (page - 1)).
Proof.
  intros H1 H2. unfold page_offset, js_sub.
  rewrite (round64_safe _ H1). unfold js_mul. apply round64_safe, H2.
Qed.

Lemma page_offset_negative limit page :
  page < 1 -> 0 < limit -> negative (page_offset limit page).
Proof.
  intros Hp Hl. unfold page_offset, js_sub.
  pose proof (round64_negative (page - 1) ltac:(lia)) as N.
  destruct (round64 (page - 1)) as [x | | |]; simpl in *;
    try contradiction.
  - apply round64_negative. nia.
  - unfold scale_infinity.
    destruct (limit =? 0) eqn:E; [apply Z.eqb_eq in E; lia |].
    destruct (limit <? 0) eqn:E'; [apply Z.ltb_lt in E'; lia |].
    exact I.
Qed.

(** ** Pagination *)

(** C2 (as stated, refuted): [search] on page 0 is not rejected; it awaits
    the database call it issued with offset -20. *)
Lemma search_page_zero_calls_through :
  let started := start (search (SearchParams.mk "x" 0)) fresh in
  awaited (snd started) = Some (Search (Handle 0) "x" 20 (Finite (-20))) /\
  issued (fst started) = [Search (Handle 0) "x" 20 (Finite (-20))].
Proof. split; reflexivity. Qed.

(** C2 (amended): for a page below 1, [search] and [getLatest] are not
    rejected; each issues its database call with limit [resultsPerPage] and
    the offset JavaScript computes for [resultsPerPage * (page - 1)], and
    awaits it.  That offset is the exact product when [page - 1] and the
    product are within 2^53 of zero, and it is negative when
    [resultsPerPage] is positive. *)
Theorem page_below_one_calls_through (w : World) (q : string) (page : Z) :
  page < 1 ->
  let h := snd (getDb w) in
  let limit := resultsPerPage (self w) in
  let offset := page_offset limit page in
  let searching := start (search (SearchParams.mk q page)) w in
  let listing := start (getLatest (GetLatestParams.mk page)) w in
  awaited (snd searching) = Some (Search h q limit offset) /\
  issued (fst searching) = Search h q limit offset :: issued w /\
  awaited (snd listing) = Some (Latest h limit offset) /\
  issued (fst listing) = Latest h limit offset :: issued w /\
  (safe (page - 1) -> safe (limit * (page - 1)) ->
   offset = Finite (limit * (page - 1))) /\
  (0 < limit -> negative offset).
Proof.
  intros Hp. cbv zeta.
  assert (H : forall A B C D : Prop, A /\ B /\ C /\ D -> forall E F : Prop,
             E -> F -> A /\ B /\ C /\ D /\ E /\ F) by tauto.
  apply H.
  - unfold start, search, getLatest, await_now, getDb.
    destruct (db (self w)) as [h |]; simpl; repeat split; reflexivity.
  - apply page_offset_safe.
  - intros Hl. apply page_offset_negative; assumption.
Qed.

Lemma page_below_one_calls_through_witness :
  let searching := start (search (SearchParams.mk "x" (-2))) fresh in
  let listing := start (getLatest (GetLatestParams.mk (-2))) fresh in
  awaited (snd searching) = Some (Search (Handle 0) "x" 20 (Finite (-60)))
  /\
  issued (fst searching) = [Search (Handle 0) "x" 20 (Finite (-60))] /\
  awaited (snd listing) = Some (Latest (Handle 0) 20 (Finite (-60))) /\
  issued (fst listing) = [Latest (Handle 0) 20 (Finite (-60))] /\
  (safe (-2 - 1) -> safe (20 * (-2 - 1)) ->
   Finite (-60) = Finite (20 * (-2 - 1))) /\
  (0 < 20 -> negative (Finite (-60))).
Proof.
  apply (page_below_one_calls_through fresh "x" (-2)); reflexivity.
Defined.




(** C10: [search] and [getLatest] publish into the same fields: a completed
    [getLatest] replaces the items and the total a prior [search] published,
    and a completed [search] replaces those of a prior [getLatest]. *)
Theorem search_and_getLatest_share_results (first second : Database)
  (w : World) (ps : SearchParams.t) (pl : GetLatestParams.t)
  (r1 r2 : SearchResults.t) :
  let limit := resultsPerPage (self w) in
  let searched := fst (run (search ps) first w) in
  let listed := fst (run (getLatest pl) first w) in
  first (Search (snd (getDb w)) (SearchParams.query ps) limit
           (page_offset limit (SearchParams.page ps))) = Resolved r1 ->
  first (Latest (snd (getDb w)) limit
           (page_offset limit (GetLatestParams.page pl))) = Resolved r1 ->
  second (Latest (snd (getDb searched)) limit
            (page_offset limit (GetLatestParams.page pl))) = Resolved r2 ->
  second (Search (snd (getDb listed)) (SearchParams.query ps) limit
            (page_offset limit (SearchParams.page ps))) = Resolved r2 ->
  let listed_after := self (fst (run (getLatest pl) second searched)) in
  let searched_after := self (fst (run (search ps) second listed)) in
  (searchResults (self searched) = SearchResults.data r1 /\
   total (self searched) = SearchResults.total r1) /\
  (searchResults listed_after = SearchResults.data r2 /\
   total listed_after = SearchResults.total r2 /\
   loadingSearchResults listed_after = false) /\
  (searchResults (self listed) = SearchResults.data r1 /\
   total (self listed) = SearchResults.total r1) /\
  (searchResults searched_after = SearchResults.data r2 /\
   total searched_after = SearchResults.total r2 /\
   loadingSearchResults searched_after = false).
Proof.
  intros limit searched listed H1 H2 H3 H4 listed_after searched_after.
  unfold limit in *. clear limit.
  assert (Es : resultsPerPage (self searched) = resultsPerPage (self w)).
  { unfold searched. rewrite run_search. rewrite H1. simpl.
    destruct (getDb_self w) as [E _]. rewrite E. reflexivity. }
  assert (El : resultsPerPage (self listed) = resultsPerPage (self w)).
  { unfold listed. rewrite run_getLatest. rewrite H2. simpl.
    destruct (getDb_self w) as [E _]. rewrite E. reflexivity. }
  split; [| split; [| split]].
  - unfold searched. rewrite run_search, H1. split; reflexivity.
  - unfold listed_after. rewrite run_getLatest, Es, H3.
    repeat split; reflexivity.
  - unfold listed. rewrite run_getLatest, H2. split; reflexivity.
  - unfold searched_after. rewrite run_search, El, H4.
    repeat split; reflexivity.
Qed.

Lemma search_and_getLatest_share_results_witness :
  let first := reply (Rejected offline)
                 (Resolved (SearchResults.mk [MetadataRecord 7] 1))
                 (Resolved tt) in
  let ps := SearchParams.mk "report" 3 in
  let pl := GetLatestParams.mk 1 in
  let searched := fst (run (search ps) first fresh) in
  let listed := fst (run (getLatest pl) first fresh) in
  let listed_after := self (fst (run (getLatest pl) all_synced searched)) in
  let searched_after := self (fst (run (search ps) all_synced listed)) in
  (searchResults (self searched) = [MetadataRecord 7] /\
   total (self searched) = 1) /\
  (searchResults listed_after = [MetadataRecord 1; MetadataRecord 2] /\
   total listed_after = 57 /\
   loadingSearchResults listed_after = false) /\
  (searchResults (self listed) = [MetadataRecord 7] /\
   total (self listed) = 1) /\
  (searchResults searched_after = [MetadataRecord 1; MetadataRecord 2] /\
   total searched_after = 57 /\
   loadingSearchResults searched_after = false).
Proof.
  apply (search_and_getLatest_share_results
           (reply (Rejected offline)
              (Resolved (SearchResults.mk [MetadataRecord 7] 1))
              (Resolved tt))
           all_synced fresh (SearchParams.mk "report" 3)
           (GetLatestParams.mk 1)
           (SearchResults.mk [MetadataRecord 7] 1) page_of_two);
    reflexivity.
Defined.

(** C6 (the code at the failing input): when the database rejects the
    call, [search] and [getLatest] end rejected with
    [loadingSearchResults] still true. *)
Theorem query_failure_leaves_loading (w : World) (ps : SearchParams.t)
  (pl : GetLatestParams.t) (e : Error) syncState done :
  let failing := reply syncState (Rejected e) done in
  loadingSearchResults (self (fst (run (search ps) failing w))) = true /\
  snd (run (search ps) failing w) = Rejected e /\
  loadingSearchResults (self (fst (run (getLatest pl) failing w))) = true /\
  snd (run (getLatest pl) failing w) = Rejected e.
Proof.
  intros failing. rewrite run_search, run_getLatest.
  repeat split; reflexivity.
Qed.

(** ** Initialisation and progress *)

Lemma run_init_rejected (oracle : Database) w e :
  let h := snd (getDb w) in
  let w1 := fst (getDb w) in
  oracle (GetSyncState h) = Rejected e ->
  run init oracle w =
  (mkWorld (with_syncError (Some (mkError "Incorrect network!")) (self w1))
           (constructed w1) (GetSyncState h :: issued w),
   Resolved tt).
Proof.
  unfold run, init, initiator, await_now, getDb.
  destruct (db (self w)) as [h |]; simpl; intros ->; reflexivity.
Qed.

(** The same path taken apart: whatever the other tasks do to the world
    between its segments, the failing [init] only constructs or fetches the
    handle, issues the read, and at last sets [syncError]. *)
Lemma init_rejected_segments (w w1 w2 w3 : World) (e : Error) :
  exists k1 k2 k3,
    init w = (fst (getDb w), Yield k1) /\
    k1 w1 =
      (mkWorld (self w1) (constructed w1)
               (GetSyncState (snd (getDb w)) :: issued w1),
       Awaiting (GetSyncState (snd (getDb w))) k2) /\
    k2 (Rejected e) w2 = (w2, Yield k3) /\
    k3 w3 =
      (mkWorld (with_syncError (Some (mkError "Incorrect network!"))
                  (self w3))
               (constructed w3) (issued w3),
       Finished (Resolved tt)).
Proof.
  unfold init, initiator, await_now.
  destruct (getDb w) as [w' h]. simpl.
  do 3 eexists. repeat split.
Qed.

(** C3: when the read of the sync state is rejected, a run of [init] ends
    with [syncError] set to the fixed error [Incorrect network!], whatever
    the underlying error was, and with [inodesSynced] and
    [totalInodesToSync] as they were before the call. *)
Theorem init_read_failure (oracle : Database) (w : World) (e : Error) :
  oracle (GetSyncState (snd (getDb w))) = Rejected e ->
  let s := self (fst (run init oracle w)) in
  syncError s = Some (mkError "Incorrect network!") /\
  inodesSynced s = inodesSynced (self w) /\
  totalInodesToSync s = totalInodesToSync (self w).
Proof.
  intros Ho s. unfold s. rewrite (run_init_rejected oracle w e Ho). simpl.
  destruct (getDb_self w) as [E _]. rewrite E.
  repeat split; reflexivity.
Qed.

Lemma init_read_failure_witness :
  let s := self (fst (run init unreachable
                        (world two_inits_and_queries))) in
  syncError s = Some (mkError "Incorrect network!") /\
  inodesSynced s = Num 100 /\
  totalInodesToSync s = Num 100.
Proof.
  apply (init_read_failure unreachable (world two_inits_and_queries)
           offline).
  reflexivity.
Defined.

(** C4 (as stated, refuted): the callback is invoked with an error and a
    sync state, and [syncError] is still null afterwards. *)
Lemma progress_error_not_captured :
  syncError (fst (onProgress (Some offline) (Some (SyncState.mk 5 100))
                    (self fresh))) = None.
Proof. reflexivity. Qed.

(** C4 (amended): when the progress callback is invoked with an error it
    leaves [syncError] as it was; with a sync state alongside it publishes
    that state's counters and returns, and without one it throws
    [Result must exist] back to the database and changes nothing. *)
Theorem progress_error_leaves_syncError (e : Error)
  (syncState : option SyncState.t) (s : FileMetadataStore) :
  syncError (fst (onProgress (Some e) syncState s)) = syncError s /\
  match syncState with
  | Some st =>
      onProgress (Some e) syncState s =
      (updateSyncProgress
         (UpdateSyncAction.mk (SyncState.numSynced st) (SyncState.total st))
         s,
       Returned)
  | None =>
      onProgress (Some e) syncState s =
      (s, Threw (mkError "Result must exist"))
  end.
Proof. destruct syncState as [st |]; split; reflexivity. Qed.

(** C8 (as stated, refuted): seven records synced out of five is published
    and [syncError] is still null. *)
Lemma progress_past_total_not_reported :
  let s := fst (onProgress None (Some (SyncState.mk 7 5)) (self fresh)) in
  syncError s = None /\
  inodesSynced s = Num 7 /\
  totalInodesToSync s = Num 5.
Proof. repeat split; reflexivity. Qed.

(** C8 (amended): a progress update whose [inodesSynced] exceeds its total
    is published as received, without clamping; the callback returns
    normally and [syncError] stays as it was. *)
Theorem progress_past_total_published (err : option Error)
  (st : SyncState.t) (s : FileMetadataStore) :
  SyncState.total st < SyncState.numSynced st ->
  let params :=
    UpdateSyncAction.mk (SyncState.numSynced st) (SyncState.total st) in
  onProgress err (Some st) s = (updateSyncProgress params s, Returned) /\
  inodesSynced (updateSyncProgress params s) = Num (SyncState.numSynced st)
  /\
  totalInodesToSync (updateSyncProgress params s) = Num (SyncState.total st)
  /\
  syncError (updateSyncProgress params s) = syncError s /\
  isDbSynced (updateSyncProgress params s) = false.
Proof.
  intros Hlt params. repeat split.
  unfold isDbSynced. simpl. apply Z.eqb_neq. lia.
Qed.

Lemma progress_past_total_published_witness :
  let params := UpdateSyncAction.mk 7 5 in
  onProgress None (Some (SyncState.mk 7 5)) (self fresh) =
    (updateSyncProgress params (self fresh), Returned) /\
  inodesSynced (updateSyncProgress params (self fresh)) = Num 7 /\
  totalInodesToSync (updateSyncProgress params (self fresh)) = Num 5 /\
  syncError (updateSyncProgress params (self fresh)) = None /\
  isDbSynced (updateSyncProgress params (self fresh)) = false.
Proof.
  apply (progress_past_total_published None (SyncState.mk 7 5) (self fresh)).
  reflexivity.
Defined.

(** ** Clearing *)

(** C7 (as stated, refuted): after a search that found 57 records, a
    successful [clear] leaves [total] at 57. *)
Lemma clear_keeps_total :
  let searched :=
    fst (run (search (SearchParams.mk "report" 3)) all_synced fresh) in
  let cleared := run clear all_synced searched in
  snd cleared = Resolved tt /\
  searchResults (self (fst cleared)) = [] /\
  total (self (fst cleared)) = 57.
Proof. repeat split; reflexivity. Qed.

(** C7 (amended): after a successful [clear], [searchResults] is empty,
    [inodesSynced] is 0 and [totalInodesToSync] is [Infinity]; [total] is
    what it was before the call. *)
Theorem clear_resets (oracle : Database) (w : World) :
  oracle (ClearData (snd (getDb w))) = Resolved tt ->
  let done := run clear oracle w in
  snd done = Resolved tt /\
  searchResults (self (fst done)) = [] /\
  inodesSynced (self (fst done)) = Num 0 /\
  totalInodesToSync (self (fst done)) = Infinity /\
  total (self (fst done)) = total (self w).
Proof.
  intros Ho done. unfold done. rewrite run_clear, Ho. simpl.
  destruct (getDb_self w) as [E _]. rewrite E.
  repeat split; reflexivity.
Qed.

Lemma clear_resets_witness :
  let w := world after_first_read in
  let done := run clear all_synced w in
  inodesSynced (self w) = Num 100 /\
  snd done = Resolved tt /\
  searchResults (self (fst done)) = [] /\
  inodesSynced (self (fst done)) = Num 0 /\
  totalInodesToSync (self (fst done)) = Infinity /\
  total (self (fst done)) = 0.
Proof.
  split; [reflexivity |].
  apply (clear_resets all_synced (world after_first_read)). reflexivity.
Defined.

(** ** The database handle *)

(** C9: over any run of the store, with any calls to [init], [search],
    [getLatest] and [clear] in flight at once, at most one
    [FileMetadataDatabase] is ever constructed, [getDb] returns the same
    handle at every point of the run, and every database call was made on
    that handle. *)
Theorem getDb_single_handle resultsPerPage autoSync (sys sys' : System) :
  steps (constructor resultsPerPage autoSync) sys ->
  steps sys sys' ->
  (constructed (world sys') <= 1)%nat /\
  (constructed (fst (getDb (world sys'))) = 1)%nat /\
  snd (getDb (world sys')) = snd (getDb (world sys)) /\
  Forall (fun c => receiver c = snd (getDb (world sys)))
         (issued (world sys')).
Proof.
  intros H1 H2.
  pose proof (single_handle_reachable _ _ _ H1) as I1.
  pose proof (single_handle_reachable _ _ _ (steps_trans _ _ _ H1 H2)) as I2.
  destruct (single_handle_getDb _ I1) as [_ E1].
  destruct (single_handle_getDb _ I2) as [[G _] E2].
  destruct I2 as [C F]. rewrite E1, E2.
  repeat split.
  - destruct C as [[_ ->] | [_ ->]]; lia.
  - destruct G as [[G _] | [_ G]]; [| exact G].
    destruct (getDb_self (world sys')) as [D _]. rewrite D in G.
    discriminate G.
  - exact F.
Qed.

Lemma getDb_single_handle_witness :
  steps (constructor 20 false) two_inits /\
  steps two_inits two_inits_and_queries /\
  List.length (tasks two_inits_and_queries) = 4%nat /\
  (constructed (world two_inits_and_queries) <= 1)%nat /\
  (constructed (fst (getDb (world two_inits_and_queries))) = 1)%nat /\
  snd (getDb (world two_inits_and_queries)) = snd (getDb (world two_inits))
  /\
  Forall (fun c => receiver c = snd (getDb (world two_inits)))
         (issued (world two_inits_and_queries)).
Proof.
  assert (H1 : steps (constructor 20 false) two_inits).
  { unfold two_inits.
    repeat (eapply steps_trans; [| apply steps_advance]).
    eapply steps_trans; apply steps_spawn. }
  assert (H2 : steps two_inits two_inits_and_queries).
  { unfold two_inits_and_queries.
    eapply steps_trans; [| apply steps_advance].
    eapply steps_trans; [| apply steps_spawn].
    eapply steps_trans; [| apply steps_advance].
    apply steps_spawn. }
  split; [exact H1 |]. split; [exact H2 |]. split; [reflexivity |].
  exact (getDb_single_handle 20 false two_inits two_inits_and_queries H1 H2).
Defined.

(** ** What every task leaves alone *)

Section Guarantee.

Variable R : World -> World -> Prop.
Hypothesis R_refl : forall w, R w w.
Hypothesis R_trans : forall a b c, R a b -> R b c -> R a c.

Lemma guards_ret o : guards R (ret o).
Proof. intros w. simpl. auto. Qed.

Lemma guards_act f k :
  (forall w, R w (mkWorld (f (self w)) (constructed w) (issued w))) ->
  guards R k -> guards R (act f k).
Proof.
  intros Hf Hk w. unfold act.
  destruct (Hk (mkWorld (f (self w)) (constructed w) (issued w))) as [H1 H2].
  split; [eapply R_trans; [apply Hf | exact H1] | exact H2].
Qed.

Lemma guards_await_call c k :
  (forall w, R w (mkWorld (self w) (constructed w) (c :: issued w))) ->
  (forall a, guards R (k a)) -> guards R (await_call c k).
Proof.
  intros Hc Hk w. unfold await_call. simpl. split; [apply Hc |].
  intros [a | e] w'; [apply Hk | apply guards_ret].
Qed.

Lemma guards_await_now {A : Type} (m : World -> World * A)
  (k : A -> Async) :
  (forall w, R w (fst (m w))) ->
  (forall a, guards R (k a)) -> guards R (await_now m k).
Proof.
  intros Hm Hk w. unfold await_now. specialize (Hm w).
  destruct (m w) as [w' a]. simpl in *. split; [exact Hm | apply Hk].
Qed.

Lemma steady_catch handler :
  (forall e w, R w (mkWorld (handler e (self w)) (constructed w) (issued w)))
  -> forall p, steady R p -> steady R (catch p handler).
Proof.
  intros Hh p. induction p as [o | k IH | c k IH] using Proc_induction.
  - intros _. destruct o as [u | e]; simpl; [exact I |].
    intros w. split; [apply Hh | exact I].
  - simpl. intros Hk w. destruct (Hk w) as [H1 H2]. specialize (IH w).
    destruct (k w) as [w' p']. simpl in *. auto.
  - simpl. intros Hk r w. destruct (Hk r w) as [H1 H2].
    specialize (IH r w). destruct (k r w) as [w' p']. simpl in *. auto.
Qed.

Lemma guards_init :
  guards R initiator ->
  (forall w,
     R w (mkWorld
            (with_syncError (Some (mkError "Incorrect network!")) (self w))
            (constructed w) (issued w))) ->
  guards R init.
Proof.
  intros Hi He w. unfold init. destruct (Hi w) as [H1 H2].
  destruct (initiator w) as [w' p]. simpl in *. split; [exact H1 |].
  apply steady_catch; [intros e; apply He | exact H2].
Qed.

Hypothesis methods_guard : forall m, guards R (invoke m).
Hypothesis callback_guards :
  forall err syncState w,
    R w (mkWorld (fst (onProgress err syncState (self w)))
                 (constructed w) (issued w)).

Lemma steady_step a b :
  step a b -> Forall (steady R) (tasks a) ->
  R (world a) (world b) /\ Forall (steady R) (tasks b).
Proof.
  intros Hs. destruct Hs as [m sys | sys l1 l2 k E | sys l1 l2 c k r E
                            | sys h err st Hin]; intros Ht.
  - unfold spawn. destruct (methods_guard m (world sys)) as [H1 H2].
    destruct (invoke m (world sys)) as [w p]. simpl in *. auto.
  - rewrite E in Ht. apply Forall_middle in Ht.
    destruct Ht as [Hl1 [Hk Hl2]]. destruct (Hk (world sys)) as [H1 H2].
    split; simpl; [exact H1 | apply Forall_middle; auto].
  - rewrite E in Ht. apply Forall_middle in Ht.
    destruct Ht as [Hl1 [Hk Hl2]]. destruct (Hk r (world sys)) as [H1 H2].
    split; simpl; [exact H1 | apply Forall_middle; auto].
  - split; simpl; [apply callback_guards | exact Ht].
Qed.

Lemma steady_steps a b :
  steps a b -> Forall (steady R) (tasks a) ->
  R (world a) (world b) /\ Forall (steady R) (tasks b).
Proof.
  induction 1 as [sys | a b c Hab IH Hbc]; intros Ha; [auto |].
  destruct (IH Ha) as [H1 H2].
  destruct (steady_step _ _ Hbc H2) as [H3 H4].
  split; [eapply R_trans; eassumption | exact H4].
Qed.

Lemma steady_constructor resultsPerPage autoSync :
  R (world (constructor resultsPerPage false))
    (world (constructor resultsPerPage autoSync)) /\
  Forall (steady R) (tasks (constructor resultsPerPage autoSync)).
Proof.
  destruct autoSync; [| split; [apply R_refl | constructor]].
  unfold constructor, syncWatcher. simpl negb. cbv iota.
  apply (steady_step (constructor resultsPerPage false) _
           (step_invoke CallInit _)).
  constructor.
Qed.

(** From the construction on, the world moves along [R], and so it does
    between any two points of a run. *)
Lemma steady_run resultsPerPage autoSync sys sys' :
  steps (constructor resultsPerPage autoSync) sys ->
  steps sys sys' ->
  R (world (constructor resultsPerPage false)) (world sys) /\
  R (world sys) (world sys').
Proof.
  intros H1 H2.
  destruct (steady_constructor resultsPerPage autoSync) as [C1 C2].
  destruct (steady_steps _ _ H1 C2) as [S1 S2].
  destruct (steady_steps _ _ H2 S2) as [T1 _].
  split; [eapply R_trans; eassumption | exact T1].
Qed.

End Guarantee.

(** Walks down the body of a method as [walk] does, for [guards]. *)
Ltac stroll refl trans side :=
  repeat first
    [ apply guards_ret; exact refl
    | apply guards_act; [exact trans | solve [side] |]
    | apply guards_await_call; [exact refl | solve [side] | intro]
    | apply guards_await_now; [solve [side] | intro]
    | match goal with
      | |- ?R ?w (fst (act _ _ ?w)) /\ _ =>
          apply guards_act; [exact trans | solve [side] |]
      end ].

Lemma settings_kept_refl w : settings_kept w w.
Proof. split; [reflexivity | left; reflexivity]. Qed.

Lemma settings_kept_trans a b c :
  settings_kept a b -> settings_kept b c -> settings_kept a c.
Proof.
  intros [H1 H2] [H3 H4]. split; [congruence |].
  destruct H4 as [H4 | H4]; [| right; exact H4].
  destruct H2 as [H2 | H2]; [left | right]; congruence.
Qed.

Ltac settings_side :=
  intros;
  first [ apply settings_kept_refl
        | split; simpl; [reflexivity | first [left; reflexivity
                                             | right; reflexivity]]
        | unfold getDb;
          match goal with
          | |- context [db (self ?w)] => destruct (db (self w))
          end;
          split; simpl; auto ].

Lemma settings_kept_methods m : guards settings_kept (invoke m).
Proof.
  destruct m as [| params | params |]; simpl;
    [apply guards_init; [| solve [settings_side]] | | |];
    (apply guards_await_now; [solve [settings_side] | intros h]).
  - stroll settings_kept_refl settings_kept_trans settings_side.
  - intros w. cbv beta zeta.
    stroll settings_kept_refl settings_kept_trans settings_side.
  - intros w. cbv beta zeta.
    stroll settings_kept_refl settings_kept_trans settings_side.
  - stroll settings_kept_refl settings_kept_trans settings_side.
Qed.

Lemma settings_kept_callback err syncState w :
  settings_kept w
    (mkWorld (fst (onProgress err syncState (self w)))
             (constructed w) (issued w)).
Proof.
  destruct syncState; split; simpl; auto.
Qed.

(** X1: the page size given to the constructor is the page size of the
    store in every state it reaches. *)
Theorem resultsPerPage_fixed (size : Z) autoSync sys :
  steps (constructor size autoSync) sys ->
  resultsPerPage (self (world sys)) = size.
Proof.
  intros Hs.
  destruct (steady_run settings_kept settings_kept_refl settings_kept_trans
              settings_kept_methods settings_kept_callback
              size autoSync sys sys Hs (steps_refl sys))
    as [[H _] _].
  exact H.
Qed.

Lemma resultsPerPage_fixed_witness :
  steps (constructor 20 true) after_retry /\
  resultsPerPage (self (world after_retry)) = 20.
Proof.
  assert (H : steps (constructor 20 true) after_retry).
  { unfold after_retry, failed_init.
    repeat first [ apply steps_refl
                 | eapply steps_trans; [| apply steps_advance]
                 | eapply steps_trans; [| apply steps_spawn] ]. }
  split; [exact H |].
  exact (resultsPerPage_fixed 20 true after_retry H).
Defined.

(** X2: [syncError] is either null or the error [Incorrect network!], and
    once it is set nothing the store does afterwards (a later [init] that
    succeeds, a query, a [clear], a progress event) clears or changes
    it. *)
Theorem syncError_sticky resultsPerPage autoSync sys sys' :
  steps (constructor resultsPerPage autoSync) sys ->
  steps sys sys' ->
  (syncError (self (world sys)) = None \/
   syncError (self (world sys)) = Some (mkError "Incorrect network!")) /\
  (syncError (self (world sys)) <> None ->
   syncError (self (world sys')) = syncError (self (world sys))).
Proof.
  intros H1 H2.
  destruct (steady_run settings_kept settings_kept_refl settings_kept_trans
              settings_kept_methods settings_kept_callback
              resultsPerPage autoSync sys sys' H1 H2)
    as [[_ A] [_ B]].
  simpl in A. split; [exact A |].
  intros Hn. destruct B as [B | B]; [exact B |].
  destruct A as [A | A]; [contradiction | congruence].
Qed.

Lemma syncError_sticky_witness :
  steps (constructor 20 true) failed_init /\
  steps failed_init after_retry /\
  isDbSynced (self (world failed_init)) = false /\
  inodesSynced (self (world after_retry)) = Num 0 /\
  syncError (self (world failed_init)) =
    Some (mkError "Incorrect network!") /\
  syncError (self (world after_retry)) =
    Some (mkError "Incorrect network!").
Proof.
  assert (H1 : steps (constructor 20 true) failed_init).
  { unfold failed_init.
    repeat first [ apply steps_refl
                 | eapply steps_trans; [| apply steps_advance] ]. }
  assert (H2 : steps failed_init after_retry).
  { unfold after_retry.
    repeat first [ apply steps_refl
                 | eapply steps_trans; [| apply steps_advance]
                 | eapply steps_trans; [| apply steps_spawn] ]. }
  split; [exact H1 |]. split; [exact H2 |].
  split; [reflexivity |]. split; [reflexivity |].
  split; [reflexivity |].
  destruct (syncError_sticky 20 true failed_init after_retry H1 H2)
    as [_ H].
  rewrite H; [reflexivity | discriminate].
Defined.

(** ** Queries and sync do not touch each other's fields *)

Lemma sync_untouched_refl w : sync_untouched w w.
Proof. repeat split. Qed.

Lemma sync_untouched_trans a b c :
  sync_untouched a b -> sync_untouched b c -> sync_untouched a c.
Proof.
  intros [H1 [H2 H3]] [H4 [H5 H6]]. repeat split; congruence.
Qed.

Lemma results_untouched_refl w : results_untouched w w.
Proof. repeat split. Qed.

Lemma results_untouched_trans a b c :
  results_untouched a b -> results_untouched b c -> results_untouched a c.
Proof.
  intros [H1 [H2 H3]] [H4 [H5 H6]]. repeat split; congruence.
Qed.

Ltac untouched_side :=
  intros;
  first [ repeat split; reflexivity
        | unfold getDb;
          match goal with
          | |- context [db (self ?w)] => destruct (db (self w))
          end;
          repeat split; reflexivity ].

(** X3: no segment of a [search] or a [getLatest], on whatever state the
    other tasks have left, changes [inodesSynced], [totalInodesToSync] or
    [syncError]. *)
Theorem queries_leave_sync_state (ps : SearchParams.t)
  (pl : GetLatestParams.t) :
  guards sync_untouched (search ps) /\
  guards sync_untouched (getLatest pl).
Proof.
  split; (apply guards_await_now; [solve [untouched_side] | intros h]);
    intros w; cbv beta zeta;
    stroll sync_untouched_refl sync_untouched_trans untouched_side.
Qed.

(** X4: no segment of an [init], failing or not, and no firing of the
    progress callback changes [searchResults], [total] or
    [loadingSearchResults]. *)
Theorem sync_leaves_results (err : option Error)
  (syncState : option SyncState.t) (w : World) :
  guards results_untouched init /\
  results_untouched w
    (mkWorld (fst (onProgress err syncState (self w)))
             (constructed w) (issued w)).
Proof.
  split.
  - apply guards_init; [| solve [untouched_side]].
    apply guards_await_now; [solve [untouched_side] | intros h].
    stroll results_untouched_refl results_untouched_trans untouched_side.
  - destruct syncState; repeat split; reflexivity.
Qed.

(** ** Runs of [init] *)

Lemma drive_catch (oracle : Database) handler p :
  forall w,
    drive oracle (catch p handler) w =
    match drive oracle p w with
    | (w', Resolved _) => (w', Resolved tt)
    | (w', Rejected e) =>
        (mkWorld (handler e (self w')) (constructed w') (issued w'),
         Resolved tt)
    end.
Proof.
  induction p as [o | k IH | c k IH] using Proc_induction; intros w.
  - destruct o as [u | e]; reflexivity.
  - simpl. specialize (IH w). destruct (k w) as [w' p']. apply IH.
  - simpl. specialize (IH (oracle c) w).
    destruct (k (oracle c) w) as [w' p']. apply IH.
Qed.

Lemma run_init (oracle : Database) w :
  let h := snd (getDb w) in
  let w1 := fst (getDb w) in
  let failed := with_syncError (Some (mkError "Incorrect network!")) in
  run init oracle w =
  match oracle (GetSyncState h) with
  | Rejected _ =>
      (mkWorld (failed (self w1)) (constructed w1)
               (GetSyncState h :: issued w),
       Resolved tt)
  | Resolved syncState =>
      let published :=
        updateSyncProgress
          (UpdateSyncAction.mk (SyncState.numSynced syncState)
                               (SyncState.total syncState))
          (self w1) in
      let calls := StartSync h :: GetSyncState h :: issued w in
      match oracle (StartSync h) with
      | Rejected _ =>
          (mkWorld (failed published) (constructed w1) calls, Resolved tt)
      | Resolved _ => (mkWorld published (constructed w1) calls, Resolved tt)
      end
  end.
Proof.
  unfold run, init. destruct (initiator w) as [w0 p] eqn:E.
  rewrite drive_catch. revert E.
  unfold initiator, await_now, getDb.
  destruct (db (self w)) as [h |]; simpl; intros E; inversion E; subst;
    simpl; destruct (oracle (GetSyncState _)); simpl; try reflexivity;
    destruct (oracle (StartSync _)); reflexivity.
Qed.

(** X5: [init] never hands a failure to its caller: whatever the database
    answers, the run ends resolved. *)
Theorem init_never_rejects (oracle : Database) (w : World) :
  snd (run init oracle w) = Resolved tt.
Proof.
  rewrite run_init. destruct (oracle (GetSyncState _)); [| reflexivity].
  cbv zeta. destruct (oracle (StartSync _)); reflexivity.
Qed.

(** X6: when the sync state is read but [startSync] is rejected, [init]
    has already published the counters it read; it then sets [syncError],
    both calls having been issued in that order. *)
Theorem init_subscribe_failure (oracle : Database) (w : World)
  (syncState : SyncState.t) (e : Error) :
  oracle (GetSyncState (snd (getDb w))) = Resolved syncState ->
  oracle (StartSync (snd (getDb w))) = Rejected e ->
  let done := fst (run init oracle w) in
  inodesSynced (self done) = Num (SyncState.numSynced syncState) /\
  totalInodesToSync (self done) = Num (SyncState.total syncState) /\
  syncError (self done) = Some (mkError "Incorrect network!") /\
  issued done =
    StartSync (snd (getDb w)) :: GetSyncState (snd (getDb w)) :: issued w.
Proof.
  intros H1 H2 done. unfold done. rewrite run_init, H1. cbv zeta.
  rewrite H2. repeat split; reflexivity.
Qed.

Lemma init_subscribe_failure_witness :
  let oracle := reply (Resolved (SyncState.mk 5 100)) (Rejected offline)
                  (Rejected offline) in
  let done := fst (run init oracle fresh) in
  inodesSynced (self done) = Num 5 /\
  totalInodesToSync (self done) = Num 100 /\
  syncError (self done) = Some (mkError "Incorrect network!") /\
  issued done = [StartSync (Handle 0); GetSyncState (Handle 0)].
Proof.
  apply (init_subscribe_failure
           (reply (Resolved (SyncState.mk 5 100)) (Rejected offline)
              (Rejected offline))
           fresh (SyncState.mk 5 100) offline); reflexivity.
Defined.

(** X7: when the read and [startSync] both succeed, [init] publishes the
    counters it read and leaves [syncError] as it was, so an error of an
    earlier attempt stays; the store is synced exactly when the two counts
    read are equal. *)
Theorem init_success (oracle : Database) (w : World)
  (syncState : SyncState.t) :
  oracle (GetSyncState (snd (getDb w))) = Resolved syncState ->
  oracle (StartSync (snd (getDb w))) = Resolved tt ->
  let done := fst (run init oracle w) in
  inodesSynced (self done) = Num (SyncState.numSynced syncState) /\
  totalInodesToSync (self done) = Num (SyncState.total syncState) /\
  syncError (self done) = syncError (self w) /\
  (isDbSynced (self done) = true <->
   SyncState.numSynced syncState = SyncState.total syncState) /\
  issued done =
    StartSync (snd (getDb w)) :: GetSyncState (snd (getDb w)) :: issued w.
Proof.
  intros H1 H2 done. unfold done. rewrite run_init, H1. cbv zeta.
  rewrite H2. destruct (getDb_self w) as [E _].
  repeat split; try reflexivity.
  - simpl. rewrite E. reflexivity.
  - unfold isDbSynced. simpl. apply Z.eqb_eq.
  - unfold isDbSynced. simpl. apply Z.eqb_eq.
Qed.

Lemma init_success_witness :
  let done := fst (run init all_synced (world failed_init)) in
  inodesSynced (self done) = Num 100 /\
  totalInodesToSync (self done) = Num 100 /\
  syncError (self done) = Some (mkError "Incorrect network!") /\
  (isDbSynced (self done) = true <-> 100 = 100) /\
  issued done =
    [StartSync (Handle 0); GetSyncState (Handle 0); GetSyncState (Handle 0)].
Proof.
  apply (init_success all_synced (world failed_init) (SyncState.mk 100 100));
    reflexivity.
Defined.

Lemma subscriptions_run_init (oracle : Database) (w : World) :
  subscriptions (fst (run init oracle w)) =
  match oracle (GetSyncState (snd (getDb w))) with
  | Resolved _ => S (subscriptions w)
  | Rejected _ => subscriptions w
  end.
Proof.
  rewrite run_init. destruct (oracle (GetSyncState _)); [| reflexivity].
  cbv zeta. destruct (oracle (StartSync _)); reflexivity.
Qed.

(** X8: a run of [init] calls [startSync] exactly when its read of the sync
    state succeeded; after a failed read it subscribes to nothing. *)
Theorem init_subscribes_after_read (oracle : Database) (w : World)
  (e : Error) (syncState : SyncState.t) :
  (oracle (GetSyncState (snd (getDb w))) = Rejected e ->
   subscriptions (fst (run init oracle w)) = subscriptions w) /\
  (oracle (GetSyncState (snd (getDb w))) = Resolved syncState ->
   subscriptions (fst (run init oracle w)) = S (subscriptions w)).
Proof.
  split; intros H; rewrite subscriptions_run_init, H; reflexivity.
Qed.

Lemma init_subscribes_after_read_witness :
  subscriptions (world after_first_read) = 1%nat /\
  subscriptions (fst (run init unreachable (world after_first_read))) =
    1%nat /\
  subscriptions (fst (run init all_synced (world after_first_read))) =
    2%nat.
Proof.
  split; [reflexivity |].
  split.
  - apply (init_subscribes_after_read unreachable (world after_first_read)
             offline (SyncState.mk 0 0)).
    reflexivity.
  - apply (init_subscribes_after_read all_synced (world after_first_read)
             offline (SyncState.mk 100 100)).
    reflexivity.
Defined.

(** X9: nothing ever closes or reuses a subscription: [n] runs of [init]
    against a database whose sync state can be read leave [n] more
    [startSync] calls behind, whether or not the store was already
    subscribed or already synced. *)
Theorem init_accumulates_subscriptions (n : nat) (syncState : SyncState.t)
  (results : Settled SearchResults.t) (done : Settled unit) (w : World) :
  subscriptions (init_times n (reply (Resolved syncState) results done) w) =
  (subscriptions w + n)%nat.
Proof.
  revert w. induction n as [| n IH]; intros w; simpl.
  - lia.
  - rewrite IH, subscriptions_run_init. simpl. lia.
Qed.

(** ** Calls, completions and their order *)

Lemma nth_error_middle {A : Type} (l : list A) :
  forall i x, nth_error l i = Some x ->
              l = firstn i l ++ x :: skipn (S i) l.
Proof.
  induction l as [| a l IH]; intros [| i] x H; simpl in *;
    try discriminate.
  - inversion H. reflexivity.
  - f_equal. apply IH, H.
Qed.

Lemma steps_advance_nth i oracle sys : steps sys (advance_nth i oracle sys).
Proof.
  unfold advance_nth.
  destruct (nth_error (tasks sys) i) as [[o | k | c k] |] eqn:E;
    try apply steps_refl;
    (eapply steps_snoc; [apply steps_refl |]).
  - apply step_resume, nth_error_middle, E.
  - apply step_settle, nth_error_middle, E.
Qed.

(** X10: calling a public method does nothing at once but make sure the
    handle exists: no database call is issued and [loadingSearchResults] is
    not raised until the task resumes from its first suspension. *)
Theorem method_call_only_caches_handle (m : MethodCall) (w : World) :
  fst (invoke m w) = fst (getDb w) /\
  issued (fst (invoke m w)) = issued w /\
  loadingSearchResults (self (fst (invoke m w))) =
    loadingSearchResults (self w) /\
  exists k, snd (invoke m w) = Yield k.
Proof.
  destruct (getDb_self w) as [E1 E2].
  assert (H : fst (invoke m w) = fst (getDb w) /\
              exists k, snd (invoke m w) = Yield k).
  { destruct m; simpl; unfold init, initiator, search, getLatest, clear,
      await_now; destruct (getDb w) as [w' h]; simpl; eauto. }
  destruct H as [H1 H2]. rewrite H1, E1, E2. auto.
Qed.

(** X11: with two searches in flight, the results of the one whose call
    completes last are the ones left published, even when it was called
    first: here the newer search completes, then the older one overwrites
    its results. *)
Theorem older_search_overwrites_newer (w : World) (others : list Proc)
  (older newer : SearchParams.t) (r_older r_newer : SearchResults.t) :
  let dispatched := two_searches w others older newer in
  let newer_done := resolve_nth 0 r_newer dispatched in
  let older_done := resolve_nth 1 r_older newer_done in
  steps (mkSystem w others) older_done /\
  searchResults (self (world newer_done)) = SearchResults.data r_newer /\
  total (self (world newer_done)) = SearchResults.total r_newer /\
  searchResults (self (world older_done)) = SearchResults.data r_older /\
  total (self (world older_done)) = SearchResults.total r_older.
Proof.
  intros dispatched newer_done older_done. split.
  - unfold older_done, newer_done, resolve_nth, dispatched, two_searches.
    repeat (eapply steps_trans; [| apply steps_advance_nth]).
    eapply steps_trans; [| apply (steps_spawn (CallSearch newer))].
    apply (steps_spawn (CallSearch older)).
  - unfold older_done, newer_done, dispatched.
    destruct w as [[items loading count size synced wanted failure [h |]]
                     made calls];
      repeat split; reflexivity.
Qed.

(** X12: [loadingSearchResults] is lowered by the first completion: with
    two searches in flight, once one of them completes the flag is false
    although the other is still waiting for the database. *)
Theorem loading_lowered_while_search_pending (w : World)
  (others : list Proc) (older newer : SearchParams.t)
  (r_newer : SearchResults.t) :
  let dispatched := two_searches w others older newer in
  let newer_done := resolve_nth 0 r_newer dispatched in
  loadingSearchResults (self (world dispatched)) = true /\
  loadingSearchResults (self (world newer_done)) = false /\
  exists h k,
    nth_error (tasks newer_done) 1 =
    Some (Awaiting
            (Search h (SearchParams.query older)
               (resultsPerPage (self w))
               (page_offset (resultsPerPage (self w))
                  (SearchParams.page older)))
            k).
Proof.
  intros dispatched newer_done.
  unfold newer_done, dispatched.
  destruct w as [[items loading count size synced wanted failure [h |]]
                   made calls];
    (split; [reflexivity |]; split; [reflexivity |]);
    do 2 eexists; reflexivity.
Qed.

(** ** Clearing, once more *)

(** X13: when the database rejects [clearData], [clear] ends rejected with
    that same error and [clearResults] is not run: results, counters,
    loading flag and [syncError] are all as they were. *)
Theorem clear_failure_changes_nothing (oracle : Database) (w : World)
  (e : Error) :
  oracle (ClearData (snd (getDb w))) = Rejected e ->
  let done := run clear oracle w in
  snd done = Rejected e /\
  self (fst done) = self (fst (getDb w)) /\
  searchResults (self (fst done)) = searchResults (self w) /\
  total (self (fst done)) = total (self w) /\
  loadingSearchResults (self (fst done)) = loadingSearchResults (self w) /\
  inodesSynced (self (fst done)) = inodesSynced (self w) /\
  totalInodesToSync (self (fst done)) = totalInodesToSync (self w) /\
  syncError (self (fst done)) = syncError (self w).
Proof.
  intros Ho done. unfold done. rewrite run_clear, Ho. simpl.
  destruct (getDb_self w) as [E _]. rewrite E.
  repeat split; reflexivity.
Qed.

Lemma clear_failure_changes_nothing_witness :
  let w := world after_first_read in
  let done := run clear unreachable w in
  snd done = Rejected offline /\
  self (fst done) = self (fst (getDb w)) /\
  searchResults (self (fst done)) = [] /\
  total (self (fst done)) = 0 /\
  loadingSearchResults (self (fst done)) = false /\
  inodesSynced (self (fst done)) = Num 100 /\
  totalInodesToSync (self (fst done)) = Num 100 /\
  syncError (self (fst done)) = None.
Proof.
  apply (clear_failure_changes_nothing unreachable (world after_first_read)
           offline).
  reflexivity.
Defined.

(** X14: a successful [clear] leaves the store unsynced, however far the
    sync had come; the loading flag, [syncError] and the handle are not
    reset. *)
Theorem clear_unsyncs (oracle : Database) (w : World) :
  oracle (ClearData (snd (getDb w))) = Resolved tt ->
  let cleared := fst (run clear oracle w) in
  isDbSynced (self cleared) = false /\
  loadingSearchResults (self cleared) = loadingSearchResults (self w) /\
  syncError (self cleared) = syncError (self w) /\
  db (self cleared) = Some (snd (getDb w)).
Proof.
  intros Ho cleared. unfold cleared. rewrite run_clear, Ho.
  destruct (getDb_self w) as [E _].
  repeat split; simpl; rewrite ?E; reflexivity.
Qed.

Lemma clear_unsyncs_witness :
  let w := world after_first_read in
  let cleared := fst (run clear all_synced w) in
  isDbSynced (self w) = true /\
  isDbSynced (self cleared) = false /\
  loadingSearchResults (self cleared) = false /\
  syncError (self cleared) = None /\
  db (self cleared) = Some (Handle 0).
Proof.
  split; [reflexivity |].
  apply (clear_unsyncs all_synced (world after_first_read)).
  reflexivity.
Defined.

(** ** Progress events *)

Lemma deliver_snoc events ev s :
  deliver (events ++ [ev]) s =
  fst (onProgress (fst ev) (snd ev) (deliver events s)).
Proof. unfold deliver. rewrite fold_left_app. reflexivity. Qed.

Lemma last_state_snoc events ev :
  last_state (events ++ [ev]) =
  match snd ev with
  | Some st => Some st
  | None => last_state events
  end.
Proof. unfold last_state. rewrite fold_left_app. reflexivity. Qed.

(** X15: after any sequence of progress events the counters are those of
    the last event that carried a sync state, whether they went up or
    down, or untouched if none did; nothing else in the store moves, and
    [syncError] stays as it was even when events carried errors. *)
Theorem progress_last_event_wins
  (events : list (option Error * option SyncState.t))
  (s : FileMetadataStore) :
  let s' := deliver events s in
  match last_state events with
  | Some st =>
      inodesSynced s' = Num (SyncState.numSynced st) /\
      totalInodesToSync s' = Num (SyncState.total st)
  | None =>
      inodesSynced s' = inodesSynced s /\
      totalInodesToSync s' = totalInodesToSync s
  end /\
  searchResults s' = searchResults s /\
  total s' = total s /\
  loadingSearchResults s' = loadingSearchResults s /\
  resultsPerPage s' = resultsPerPage s /\
  syncError s' = syncError s /\
  db s' = db s.
Proof.
  induction events as [| ev events IH] using rev_ind; cbv zeta.
  - repeat split; reflexivity.
  - rewrite deliver_snoc, last_state_snoc. cbv zeta in IH.
    destruct IH as [IH1 [IH2 [IH3 [IH4 [IH5 [IH6 IH7]]]]]].
    destruct ev as [err [st |]]; simpl.
    + repeat split; assumption.
    + repeat split; assumption.
Qed.

(** ** Construction and the handle *)

(** X16: a new store is never synced and has published nothing; without
    [autoSync] nothing has started, with it the constructor has already
    called [init], which has constructed the handle and waits, no database
    call issued yet. *)
Theorem constructor_state (size : Z) (autoSync : bool) :
  let sys := constructor size autoSync in
  isDbSynced (self (world sys)) = false /\
  searchResults (self (world sys)) = [] /\
  total (self (world sys)) = 0 /\
  loadingSearchResults (self (world sys)) = false /\
  syncError (self (world sys)) = None /\
  issued (world sys) = [] /\
  constructed (world sys) = (if autoSync then 1 else 0)%nat /\
  db (self (world sys)) = (if autoSync then Some (Handle 0) else None) /\
  if autoSync
  then exists k, tasks sys = [Yield k] /\
                 awaited (snd (k (world sys))) =
                   Some (GetSyncState (Handle 0))
  else tasks sys = [].
Proof.
  destruct autoSync; cbv zeta; repeat split.
  eexists. split; reflexivity.
Qed.

Lemma getDb_again w :
  getDb (fst (getDb w)) = (fst (getDb w), snd (getDb w)).
Proof.
  unfold getDb. destruct (db (self w)) eqn:E; simpl; [rewrite E |];
    reflexivity.
Qed.

(** X17: on any store, a second [getDb] returns the handle of the first and
    changes nothing, and the first changes nothing but the cache [db]. *)
Theorem getDb_idempotent (w : World) :
  getDb (fst (getDb w)) = (fst (getDb w), snd (getDb w)) /\
  db (self (fst (getDb w))) = Some (snd (getDb w)) /\
  with_db (db (self w)) (self (fst (getDb w))) = self w /\
  issued (fst (getDb w)) = issued w /\
  (constructed (fst (getDb w)) <= S (constructed w))%nat.
Proof.
  split; [apply getDb_again |].
  unfold getDb. destruct (db (self w)) eqn:E; simpl.
  - repeat split; try assumption; try lia.
    rewrite <- E. destruct (self w); reflexivity.
  - repeat split; try lia. rewrite <- E. destruct (self w); reflexivity.
Qed.

(** ** Queries, once more *)

(** X18: a query that fails leaves the results and the total of the
    previous query published; only the loading flag, raised at dispatch,
    differs, and the call was made. *)
Theorem query_failure_keeps_previous_results (oracle : Database)
  (w : World) (ps : SearchParams.t) (e : Error) :
  let limit := resultsPerPage (self w) in
  let c := Search (snd (getDb w)) (SearchParams.query ps) limit
             (page_offset limit (SearchParams.page ps)) in
  oracle c = Rejected e ->
  let failed := run (search ps) oracle w in
  snd failed = Rejected e /\
  searchResults (self (fst failed)) = searchResults (self w) /\
  total (self (fst failed)) = total (self w) /\
  self (fst failed) =
    with_loadingSearchResults true (self (fst (getDb w))) /\
  issued (fst failed) = c :: issued w.
Proof.
  intros limit c Ho failed. unfold failed. rewrite run_search.
  fold limit. fold c. rewrite Ho. simpl.
  destruct (getDb_self w) as [E _]. rewrite E.
  repeat split; reflexivity.
Qed.

Lemma query_failure_keeps_previous_results_witness :
  let w := fst (run (search (SearchParams.mk "report" 3)) all_synced fresh) in
  let failed := run (search (SearchParams.mk "paper" 1)) unreachable w in
  snd failed = Rejected offline /\
  searchResults (self (fst failed)) = [MetadataRecord 1; MetadataRecord 2] /\
  total (self (fst failed)) = 57 /\
  self (fst failed) =
    with_loadingSearchResults true (self (fst (getDb w))) /\
  issued (fst failed) =
    [Search (Handle 0) "paper" 20 (Finite 0);
     Search (Handle 0) "report" 20 (Finite 40)].
Proof.
  apply (query_failure_keeps_previous_results unreachable
           (fst (run (search (SearchParams.mk "report" 3)) all_synced fresh))
           (SearchParams.mk "paper" 1) offline).
  reflexivity.
Defined.


